(** * back-blog-simple: the posts API of [main.py]

    The five route handlers of [main.py] are embedded over an explicit model
    of the SQLAlchemy session they receive from [get_db].  The session is
    threaded as state; [SQLAlchemyError] and [HTTPException] are the two
    exceptions the handlers raise or catch.

    The database itself is outside the repository.  It is modelled by
    - the table [posts], a finite map from the primary key [id] to the
      columns [(title, content)], so that the primary key is unique by
      construction;
    - [gen_id], the key the database assigns to an inserted row.  It is a
      parameter of the whole development; the database rejects an insert
      whose key is already taken;
    - a script of outcomes, one per statement sent to the database, that
      says which statements fail and with which message.

    Requests are served one at a time.  A commit is atomic: it either
    raises and leaves the table as it was, or goes through.  [rollback]
    and [close] send nothing that can fail. *)

From stdpp Require Import base option list gmap strings.

Local Open Scope Z_scope.
Local Open Scope string_scope.

(** ** Data model *)

(** [class Post(BaseModel)]: the request body of create and update. *)
Module Post.
Record t : Type := mk { title : string; content : string }.
End Post.

(** [class PostModel(Base)]: a persistent row of the table [posts]. *)
Module PostModel.
Record t : Type := mk { id : Z; title : string; content : string }.

#[global] Instance eq_dec : EqDecision t.
Proof. solve_decision. Defined.

(** The columns stored under the primary key. *)
Definition columns (p : t) : string * string := (title p, content p).

(** The object loaded from the row stored under key [k]. *)
Definition load (k : Z) (c : string * string) : t := mk k c.1 c.2.
End PostModel.

(** The table [posts]. *)
Abbreviation Table := (gmap Z (string * string)).

(** ** Exceptions *)

Inductive Exn : Type :=
  | SQLAlchemyError (msg : string)
  | HTTPException (status_code : Z) (detail : string).

(** ** The session: unit of work over the table *)

(** A change registered with the session and not yet flushed. *)
Inductive Write : Type :=
  | Insert (title content : string)
  | Modify (key : Z) (title content : string)
  | Remove (key : Z).

Record Session : Type := mkSession {
  store : Table;                    (* what the database holds *)
  pending : list Write;             (* registered, not flushed *)
  script : list (option string)     (* outcome of the next statements *)
}.

(** Computations over a session that return or raise. *)
Definition M (A : Type) : Type := Session → (Exn + A) * Session.

#[global] Instance M_ret : MRet M := λ A (a : A) s, (inr a, s).

#[global] Instance M_bind : MBind M := λ A B (f : A → M B) (m : M A) s,
  match m s with
  | (inr a, s') => f a s'
  | (inl e, s') => (inl e, s')
  end.

#[global] Instance M_fmap : FMap M := λ A B (f : A → B) (m : M A),
  a ← m; mret (f a).

Definition raise {A : Type} (e : Exn) : M A := λ s, (inl e, s).

Definition gets {A : Type} (f : Session → A) : M A := λ s, (inr (f s), s).

(** [try: body except SQLAlchemyError as e: handler(str(e))]; an
    [HTTPException] raised by the body is not caught. *)
Definition try_except {A : Type} (body : M A) (handler : string → M A) : M A :=
  λ s,
    match body s with
    | (inl (SQLAlchemyError msg), s') => handler msg s'
    | r => r
    end.

(** One statement sent to the database: it consumes the next outcome of the
    script; an exhausted script means the statement succeeds. *)
Definition execute : M unit := λ s,
  match script s with
  | [] => (inr tt, s)
  | None :: rest => (inr tt, mkSession (store s) (pending s) rest)
  | Some msg :: rest =>
      (inl (SQLAlchemyError msg), mkSession (store s) (pending s) rest)
  end.

(** Messages of the errors the session raises on its own. *)
Definition IntegrityError : string := "IntegrityError".
Definition StaleDataError : string := "StaleDataError".
Definition InvalidRequestError : string := "InvalidRequestError".

(** The outcome of the [n]-th statement of a script: [None] when it
    succeeds, the message of the error otherwise. *)
Definition outcome (n : nat) (outcomes : list (option string))
  : option string :=
  mjoin (outcomes !! n).

(** A key generator in the manner of a serial column: one more than the
    largest key in use, [1] on the empty table. *)
Definition serial_id (t : Table) : Z :=
  1 + map_fold (λ k _ m, Z.max k m) 0 t.

Section App.

(** The primary key the database generates for a row inserted into the
    given table. *)
Variable gen_id : Table → Z.

(** [db.query(PostModel).filter(PostModel.id == post_id).first()] *)
Definition query_first (post_id : Z) : M (option PostModel.t) :=
  execute ;;
  t ← gets store;
  mret (PostModel.load post_id <$> t !! post_id).

(** [db.query(PostModel).all()] *)
Definition query_all : M (list PostModel.t) :=
  execute ;;
  t ← gets store;
  mret (uncurry PostModel.load <$> map_to_list t).

Definition register (w : Write) : M unit := λ s,
  (inr tt, mkSession (store s) (pending s ++ [w]) (script s)).

(** [db.add(PostModel(title=..., content=...))]: no statement is sent. *)
Definition add (title content : string) : M unit :=
  register (Insert title content).

(** [db_post.title = ...; db_post.content = ...] on a persistent object:
    the object is marked dirty. *)
Definition assign (db_post : PostModel.t) (title content : string)
  : M PostModel.t :=
  register (Modify (PostModel.id db_post) title content) ;;
  mret (PostModel.mk (PostModel.id db_post) title content).

(** [db.delete(db_post)]: the object is marked deleted. *)
Definition delete_ (db_post : PostModel.t) : M unit :=
  register (Remove (PostModel.id db_post)).

(** The statements of a flush, applied to the table in turn.  The result
    carries the keys generated for the inserted rows. *)
Fixpoint flush (ws : list Write) (t : Table) : string + Table * list Z :=
  match ws with
  | [] => inr (t, [])
  | Insert title content :: ws' =>
      let k := gen_id t in
      match t !! k with
      | Some _ => inl IntegrityError
      | None =>
          match flush ws' (<[k := (title, content)]> t) with
          | inr (t', ks) => inr (t', k :: ks)
          | inl e => inl e
          end
      end
  | Modify k title content :: ws' =>
      match t !! k with
      | Some _ => flush ws' (<[k := (title, content)]> t)
      | None => inl StaleDataError
      end
  | Remove k :: ws' => flush ws' (delete k t)
  end.

(** [db.commit()]: flush and commit as one atomic interaction.  When it
    raises, the table is as it was. *)
Definition commit : M (list Z) :=
  execute ;;
  ((λ s, match flush (pending s) (store s) with
         | inr (t', ks) => (inr ks, mkSession t' [] (script s))
         | inl msg => (inl (SQLAlchemyError msg), s)
         end) : M (list Z)).

(** [db.refresh(obj)]: reload the object from its row.  [key] is the
    primary key of the object, [None] when it never got one. *)
Definition refresh (key : option Z) : M PostModel.t :=
  match key with
  | None => raise (SQLAlchemyError InvalidRequestError)
  | Some k =>
      execute ;;
      t ← gets store;
      match t !! k with
      | Some c => mret (PostModel.load k c)
      | None => raise (SQLAlchemyError InvalidRequestError)
      end
  end.

(** [db.rollback()]: whatever is pending is discarded. *)
Definition rollback : M unit := λ s,
  (inr tt, mkSession (store s) [] (script s)).

(** ** Route handlers *)

Definition not_found : string := "Post no encontrado".

(** [GET /] *)
Definition read_root : string := "Bienvenido a la API de Articulos".

(** [GET /posts] *)
Definition get_posts : M (list PostModel.t) :=
  try_except
    (posts ← query_all;
     mret posts)
    (λ e, raise (HTTPException 500 e)).

(** [GET /posts/{post_id}] *)
Definition get_post (post_id : Z) : M PostModel.t :=
  try_except
    (post ← query_first post_id;
     match post with
     | Some post => mret post
     | None => raise (HTTPException 404 not_found)
     end)
    (λ e, raise (HTTPException 500 e)).

(** [POST /posts] *)
Definition create_post (post : Post.t) : M PostModel.t :=
  try_except
    (add (Post.title post) (Post.content post) ;;
     keys ← commit;
     post_data ← refresh (head keys);
     mret post_data)
    (λ e, rollback ;; raise (HTTPException 500 e)).

(** [PUT /posts/{post_id}] *)
Definition update_post (post_id : Z) (post : Post.t) : M PostModel.t :=
  try_except
    (db_post ← query_first post_id;
     match db_post with
     | Some db_post =>
         db_post ← assign db_post (Post.title post) (Post.content post);
         commit ;;
         db_post ← refresh (Some (PostModel.id db_post));
         mret db_post
     | None => raise (HTTPException 404 not_found)
     end)
    (λ e, rollback ;; raise (HTTPException 500 e)).

(** [DELETE /posts/{post_id}] *)
Definition delete_post (post_id : Z) : M PostModel.t :=
  try_except
    (db_post ← query_first post_id;
     match db_post with
     | Some db_post =>
         delete_ db_post ;;
         commit ;;
         mret db_post
     | None => raise (HTTPException 404 not_found)
     end)
    (λ e, rollback ;; raise (HTTPException 500 e)).

(** ** The session of a request *)

(** [SessionLocal()]: a fresh session on the database, nothing pending. *)
Definition SessionLocal (t : Table) (outcomes : list (option string))
  : Session :=
  mkSession t [] outcomes.

(** [db.close()]: what was not committed is gone; the database stays. *)
Definition close (db : Session) : Table := store db.

(** [get_db]: the handler runs on a session of its own, closed on every
    exit path. *)
Definition get_db {A : Type} (handler : M A)
    (outcomes : list (option string)) (t : Table) : (Exn + A) * Table :=
  let db := SessionLocal t outcomes in
  let '(r, db) := handler db in
  (r, close db).

(** ** The application *)

Inductive Request : Type :=
  | GetRoot
  | GetPosts
  | GetPost (post_id : Z)
  | PostPosts (post : Post.t)
  | PutPost (post_id : Z) (post : Post.t)
  | DeletePost (post_id : Z).

Inductive Body : Type :=
  | Message (message : string)
  | Rows (posts : list PostModel.t)
  | Row (post : PostModel.t).

(** The routes of [app]. *)
Definition app (req : Request) : M Body :=
  match req with
  | GetRoot => mret (Message read_root)
  | GetPosts => Rows <$> get_posts
  | GetPost post_id => Row <$> get_post post_id
  | PostPosts post => Row <$> create_post post
  | PutPost post_id post => Row <$> update_post post_id post
  | DeletePost post_id => Row <$> delete_post post_id
  end.

(** The requests of a history, served one after the other; each comes
    with the outcomes of its statements.  The result lists the exchanges
    and the table left at the end. *)
Fixpoint serve (history : list (Request * list (option string)))
    (t : Table) : list (Request * (Exn + Body)) * Table :=
  match history with
  | [] => ([], t)
  | (req, outcomes) :: history =>
      let '(resp, t) := get_db (app req) outcomes t in
      let '(log, t) := serve history t in
      ((req, resp) :: log, t)
  end.

(** A request answered with a store failure. *)
Definition store_failure {A : Type} (resp : Exn + A) : bool :=
  match resp with
  | inl (HTTPException 500 _) => true
  | _ => false
  end.

(** The posts created and not deleted, as the exchanges tell: a created
    or updated post is entered as it was returned, a deleted one is
    struck out. *)
Definition entered (posts : Table) (exchange : Request * (Exn + Body))
  : Table :=
  match exchange with
  | (PostPosts _, inr (Row p)) | (PutPost _ _, inr (Row p)) =>
      <[PostModel.id p := PostModel.columns p]> posts
  | (DeletePost _, inr (Row p)) => delete (PostModel.id p) posts
  | _ => posts
  end.

Definition ledger (initial : Table) (log : list (Request * (Exn + Body)))
  : Table :=
  foldl entered initial log.

(** The requests that write. *)
Definition mutating (req : Request) : bool :=
  match req with
  | PostPosts _ | PutPost _ _ | DeletePost _ => true
  | GetRoot | GetPosts | GetPost _ => false
  end.

(** No exchange of the log is a store failure. *)
Definition no_store_failure (log : list (Request * (Exn + Body))) : bool :=
  forallb (λ exchange, negb (store_failure exchange.2)) log.

(** ** The statements of a request *)

(** The [n]-th statement of a request is the first that fails, and it
    fails with [msg]. *)
Definition fails_at (n : nat) (msg : string)
    (outcomes : list (option string)) : Prop :=
  outcome n outcomes = Some msg ∧
  ∀ i, (i < n)%nat → outcome i outcomes = None.

(** How many statements a request sends on table [t] when none of them
    fails: the lookup where there is one, the commit when the handler
    gets to it, the refresh when the commit went through. *)
Definition statements (req : Request) (t : Table) : nat :=
  match req with
  | GetRoot => 0
  | GetPosts | GetPost _ => 1
  | PostPosts _ => if t !! gen_id t is Some _ then 1 else 2
  | PutPost post_id _ => if t !! post_id is Some _ then 3 else 1
  | DeletePost post_id => if t !! post_id is Some _ then 2 else 1
  end.

(** The position of the refresh that follows the commit. *)
Definition refresh_index (req : Request) : option nat :=
  match req with
  | PostPosts _ => Some 1%nat
  | PutPost _ _ => Some 2%nat
  | _ => None
  end.

(** The table once the write of the request is committed. *)
Definition written (req : Request) (t : Table) : Table :=
  match req with
  | PostPosts post =>
      <[gen_id t := (Post.title post, Post.content post)]> t
  | PutPost post_id post =>
      <[post_id := (Post.title post, Post.content post)]> t
  | DeletePost post_id => delete post_id t
  | _ => t
  end.

(** The persistence layer raises [msg] on the [n]-th statement of the
    request: the statement is sent and is the first the script fails,
    or it is the commit of a create whose generated key is taken. *)
Definition raises (req : Request) (t : Table)
    (outcomes : list (option string)) (n : nat) (msg : string) : Prop :=
  (fails_at n msg outcomes ∧ (n < statements req t)%nat) ∨
  (∃ post, req = PostPosts post ∧ n = 0%nat ∧ outcome 0 outcomes = None ∧
           is_Some (t !! gen_id t) ∧ msg = IntegrityError).

End App.

(** ** The row a request writes *)

(** The key of the row a request writes, when it writes: the generated
    key for a create, the id of the path for an update or a delete. *)
Definition target (gen_id : Table → Z) (req : Request) (t : Table)
  : option Z :=
  match req with
  | PostPosts _ => Some (gen_id t)
  | PutPost post_id _ | DeletePost post_id => Some post_id
  | GetRoot | GetPosts | GetPost _ => None
  end.

(** ** Sample data *)

(** A history with two creates, an update, a delete and two reads. *)
Definition sample_history : list (Request * list (option string)) :=
  [ (PostPosts (Post.mk "A" "B"), []);
    (PostPosts (Post.mk "C" "D"), []);
    (PutPost 1 (Post.mk "A2" "B2"), []);
    (GetPost 7, []);
    (DeletePost 2, [None; None]);
    (GetPosts, []) ].

(** The example of the specification: create, get, delete, get. *)
Definition spec_history : list (Request * list (option string)) :=
  [ (PostPosts (Post.mk "A" "B"), []);
    (GetPost 1, []);
    (DeletePost 1, []);
    (GetPost 1, []) ].

(** * Properties *)

Section Properties.

Variable gen_id : Table → Z.

(** ** The statements of a script *)

Lemma outcome_tail n sc : outcome n (tail sc) = outcome (S n) sc.
Proof. by destruct sc. Qed.

Lemma outcome_drop n k sc : outcome n (drop k sc) = outcome (k + n) sc.
Proof. unfold outcome. by rewrite lookup_drop. Qed.

Lemma execute_eq t p sc :
  execute (mkSession t p sc) =
    (match outcome 0 sc with
     | Some msg => inl (SQLAlchemyError msg)
     | None => inr tt
     end, mkSession t p (tail sc)).
Proof. by destruct sc as [|[msg|] sc]. Qed.

(** ** What each handler does on a fresh session *)

Lemma get_posts_eq t p sc :
  get_posts (mkSession t p sc) =
    (match outcome 0 sc with
     | Some msg => inl (HTTPException 500 msg)
     | None => inr (uncurry PostModel.load <$> map_to_list t)
     end, mkSession t p (tail sc)).
Proof.
  unfold get_posts, try_except, query_all, mbind, M_bind.
  rewrite execute_eq. by destruct (outcome 0 sc).
Qed.

Lemma get_post_eq post_id t p sc :
  get_post post_id (mkSession t p sc) =
    (match outcome 0 sc with
     | Some msg => inl (HTTPException 500 msg)
     | None =>
         match t !! post_id with
         | Some c => inr (PostModel.load post_id c)
         | None => inl (HTTPException 404 not_found)
         end
     end, mkSession t p (tail sc)).
Proof.
  unfold get_post, try_except, query_first, mbind, M_bind.
  rewrite execute_eq. destruct (outcome 0 sc); simpl; [done|].
  by destruct (t !! post_id).
Qed.

Lemma create_post_eq post t sc :
  create_post gen_id post (SessionLocal t sc) =
    match outcome 0 sc with
    | Some msg => (inl (HTTPException 500 msg), mkSession t [] (tail sc))
    | None =>
        match t !! gen_id t with
        | Some _ =>
            (inl (HTTPException 500 IntegrityError),
             mkSession t [] (tail sc))
        | None =>
            let t' :=
              <[gen_id t := (Post.title post, Post.content post)]> t in
            (match outcome 1 sc with
             | Some msg => inl (HTTPException 500 msg)
             | None =>
                 inr (PostModel.mk (gen_id t)
                        (Post.title post) (Post.content post))
             end, mkSession t' [] (drop 2 sc))
        end
    end.
Proof.
  unfold create_post, try_except, add, register, commit, refresh,
    SessionLocal, mbind, M_bind.
  simpl. rewrite execute_eq.
  destruct (outcome 0 sc); simpl; [done|].
  destruct (t !! gen_id t) eqn:Hk; simpl; [done|].
  rewrite execute_eq, outcome_tail.
  replace (tail (tail sc)) with (drop 2 sc) by (by destruct sc as [|? [|? ?]]).
  destruct (outcome 1 sc); simpl; [done|].
  by rewrite lookup_insert_eq.
Qed.

Lemma update_post_eq post_id post t sc :
  update_post gen_id post_id post (SessionLocal t sc) =
    match outcome 0 sc with
    | Some msg => (inl (HTTPException 500 msg), mkSession t [] (tail sc))
    | None =>
        match t !! post_id with
        | None =>
            (inl (HTTPException 404 not_found), mkSession t [] (tail sc))
        | Some _ =>
            match outcome 1 sc with
            | Some msg =>
                (inl (HTTPException 500 msg), mkSession t [] (drop 2 sc))
            | None =>
                let t' :=
                  <[post_id := (Post.title post, Post.content post)]> t in
                (match outcome 2 sc with
                 | Some msg => inl (HTTPException 500 msg)
                 | None =>
                     inr (PostModel.mk post_id
                            (Post.title post) (Post.content post))
                 end, mkSession t' [] (drop 3 sc))
            end
        end
    end.
Proof.
  unfold update_post, try_except, query_first, assign, register, commit,
    refresh, rollback, SessionLocal, mbind, M_bind.
  simpl. rewrite execute_eq.
  destruct (outcome 0 sc); simpl; [done|].
  destruct (t !! post_id) eqn:Hk; simpl; [|done].
  rewrite execute_eq, outcome_tail.
  replace (tail (tail sc)) with (drop 2 sc) by (by destruct sc as [|? [|? ?]]).
  destruct (outcome 1 sc); simpl; [done|].
  rewrite Hk. simpl. rewrite execute_eq, outcome_drop.
  replace (tail (drop 2 sc)) with (drop 3 sc)
    by (by destruct sc as [|? [|? [|? ?]]]).
  change (2 + 0)%nat with 2%nat.
  destruct (outcome 2 sc); simpl; [done|].
  by rewrite lookup_insert_eq.
Qed.

Lemma delete_post_eq post_id t sc :
  delete_post gen_id post_id (SessionLocal t sc) =
    match outcome 0 sc with
    | Some msg => (inl (HTTPException 500 msg), mkSession t [] (tail sc))
    | None =>
        match t !! post_id with
        | None =>
            (inl (HTTPException 404 not_found), mkSession t [] (tail sc))
        | Some c =>
            match outcome 1 sc with
            | Some msg =>
                (inl (HTTPException 500 msg), mkSession t [] (drop 2 sc))
            | None =>
                (inr (PostModel.load post_id c),
                 mkSession (delete post_id t) [] (drop 2 sc))
            end
        end
    end.
Proof.
  unfold delete_post, try_except, query_first, delete_, register, commit,
    rollback, SessionLocal, mbind, M_bind.
  simpl. rewrite execute_eq.
  destruct (outcome 0 sc); simpl; [done|].
  destruct (t !! post_id) eqn:Hk; simpl; [|done].
  rewrite execute_eq, outcome_tail.
  replace (tail (tail sc)) with (drop 2 sc) by (by destruct sc as [|? [|? ?]]).
  by destruct (outcome 1 sc).
Qed.

(** ** The handlers under [get_db] *)

Lemma get_db_get_post post_id t sc :
  outcome 0 sc = None →
  get_db (get_post post_id) sc t =
    (match t !! post_id with
     | Some c => inr (PostModel.load post_id c)
     | None => inl (HTTPException 404 not_found)
     end, t).
Proof.
  intros Hsc. unfold get_db, SessionLocal.
  by rewrite get_post_eq, Hsc.
Qed.

Lemma get_db_create_post_inv post t sc p t' :
  get_db (create_post gen_id post) sc t = (inr p, t') →
  t !! gen_id t = None ∧
  p = PostModel.mk (gen_id t) (Post.title post) (Post.content post) ∧
  t' = <[gen_id t := (Post.title post, Post.content post)]> t.
Proof.
  unfold get_db. rewrite create_post_eq.
  destruct (outcome 0 sc); [done|].
  destruct (t !! gen_id t); [done|].
  simpl. destruct (outcome 1 sc); [done|].
  intros [= <- <-]. done.
Qed.

Lemma get_db_update_post_inv post_id post t sc p t' :
  get_db (update_post gen_id post_id post) sc t = (inr p, t') →
  is_Some (t !! post_id) ∧
  p = PostModel.mk post_id (Post.title post) (Post.content post) ∧
  t' = <[post_id := (Post.title post, Post.content post)]> t.
Proof.
  unfold get_db. rewrite update_post_eq.
  destruct (outcome 0 sc); [done|].
  destruct (t !! post_id); [|done].
  destruct (outcome 1 sc); [done|].
  simpl. destruct (outcome 2 sc); [done|].
  intros [= <- <-]. eauto.
Qed.

Lemma get_db_delete_post post_id t sc c :
  t !! post_id = Some c →
  outcome 0 sc = None →
  outcome 1 sc = None →
  get_db (delete_post gen_id post_id) sc t =
    (inr (PostModel.load post_id c), delete post_id t).
Proof.
  intros Ht H0 H1. unfold get_db.
  by rewrite delete_post_eq, H0, Ht, H1.
Qed.

(** ** Create, then get *)

(** C1.  For every title and content: when the two statements of Create
    are answered by the database and the key the store generates is free,
    Create answers with a post, and Get-by-id with the id of that post
    (its lookup being answered) returns that very post, whose title and
    content are the ones of the request. *)
Theorem create_then_get post sc sc' t :
  outcome 0 sc = None →
  outcome 1 sc = None →
  t !! gen_id t = None →
  outcome 0 sc' = None →
  ∃ p t',
    get_db (create_post gen_id post) sc t = (inr p, t') ∧
    get_db (get_post (PostModel.id p)) sc' t' = (inr p, t') ∧
    PostModel.title p = Post.title post ∧
    PostModel.content p = Post.content post.
Proof.
  intros H0 H1 Hk Hsc'.
  exists (PostModel.mk (gen_id t) (Post.title post) (Post.content post)),
    (<[gen_id t := (Post.title post, Post.content post)]> t).
  split.
  - unfold get_db. by rewrite create_post_eq, H0, Hk, H1.
  - rewrite get_db_get_post by done. simpl. by rewrite lookup_insert_eq.
Qed.

(** ** Update of a post that does not exist *)

(** C3.  Update on an id that no post has leaves the table as it was,
    no row inserted, changed or removed, and answers 404 with the
    message [not_found] as soon as its lookup is answered by the
    database. *)
Theorem update_absent post_id post sc t :
  t !! post_id = None →
  (get_db (update_post gen_id post_id post) sc t).2 = t ∧
  (outcome 0 sc = None →
   get_db (update_post gen_id post_id post) sc t =
     (inl (HTTPException 404 not_found), t)).
Proof.
  intros Ht. unfold get_db. rewrite update_post_eq, Ht.
  by destruct (outcome 0 sc).
Qed.

(** ** Delete *)

(** C4.  When a post has the id, Delete on it followed by Get-by-id on
    it answers 404 (no statement of either request failing). *)
Theorem delete_then_get post_id sc sc' t :
  is_Some (t !! post_id) →
  outcome 0 sc = None →
  outcome 1 sc = None →
  outcome 0 sc' = None →
  ∃ p t',
    get_db (delete_post gen_id post_id) sc t = (inr p, t') ∧
    get_db (get_post post_id) sc' t' =
      (inl (HTTPException 404 not_found), t').
Proof.
  intros [c Ht] H0 H1 Hsc'.
  exists (PostModel.load post_id c), (delete post_id t). split.
  - by apply get_db_delete_post.
  - rewrite get_db_get_post by done. by rewrite lookup_delete_eq.
Qed.

(** C5.  When a post has the id, Delete on it succeeds (no statement
    failing) and answers with the id, title and content the row had
    before; the row is gone afterwards and no other row is touched. *)
Theorem delete_returns_prior post_id title content sc t :
  t !! post_id = Some (title, content) →
  outcome 0 sc = None →
  outcome 1 sc = None →
  get_db (delete_post gen_id post_id) sc t =
    (inr (PostModel.mk post_id title content), delete post_id t).
Proof. intros Ht H0 H1. by rewrite (get_db_delete_post _ _ _ _ Ht). Qed.

(** ** Not found *)


(** ** Update of a post that exists *)

(** C8.  A successful Update answers with a post of the same id; in the
    table the row of that id now carries the title and content of the
    request, the ids in use are the same, and every other row is as it
    was. *)
Theorem update_frame post_id post sc t p t' :
  get_db (update_post gen_id post_id post) sc t = (inr p, t') →
  PostModel.id p = post_id ∧
  t' !! post_id = Some (Post.title post, Post.content post) ∧
  dom t' = dom t ∧
  ∀ k, k ≠ post_id → t' !! k = t !! k.
Proof.
  intros (Hin & -> & ->)%get_db_update_post_inv.
  split; [done|]. split; [by rewrite lookup_insert_eq|]. split.
  - rewrite dom_insert_L. apply subseteq_union_1_L, singleton_subseteq_l.
    by apply elem_of_dom.
  - intros k Hk. by rewrite lookup_insert_ne.
Qed.

(** ** The id of a created post *)

(** C9.  The body of Create carries a title and a content and nothing
    else.  When the two statements of Create are answered and the key the
    store generates for the table is free, Create answers with a post
    whose id is that key and stores the row under that key, every other
    row being as it was.  And whatever body is sent and whatever the
    database answers, a Create that answers on this table answers with
    that same id and has stored its row under it: nothing in the request
    has a say in the id. *)
Theorem create_id_generated post sc t :
  outcome 0 sc = None →
  outcome 1 sc = None →
  t !! gen_id t = None →
  get_db (create_post gen_id post) sc t =
    (inr (PostModel.mk (gen_id t) (Post.title post) (Post.content post)),
     <[gen_id t := (Post.title post, Post.content post)]> t) ∧
  ∀ post' sc' p' t',
    get_db (create_post gen_id post') sc' t = (inr p', t') →
    PostModel.id p' = gen_id t ∧
    t' = <[gen_id t := (Post.title post', Post.content post')]> t.
Proof.
  intros H0 H1 Hk. split.
  - unfold get_db. by rewrite create_post_eq, H0, Hk, H1.
  - intros post' sc' p' t' H.
    by pose proof (get_db_create_post_inv _ _ _ _ _ H) as (_ & -> & ->).
Qed.

(** ** Reads *)

(** C10.  The root endpoint, List and Get-by-id leave the table as it
    was, whatever the database answers and whether the post exists or
    not. *)
Theorem reads_keep_store post_id sc t :
  (get_db (app gen_id GetRoot) sc t).2 = t ∧
  (get_db get_posts sc t).2 = t ∧
  (get_db (get_post post_id) sc t).2 = t.
Proof.
  unfold get_db, SessionLocal. rewrite get_posts_eq, get_post_eq. done.
Qed.

(** ** List *)

Lemma get_db_fmap {A B : Type} (f : A → B) (h : M A) sc t :
  get_db (f <$> h) sc t =
    (match (get_db h sc t).1 with
     | inl e => inl e
     | inr a => inr (f a)
     end, (get_db h sc t).2).
Proof.
  unfold get_db, fmap, M_fmap, mbind, M_bind.
  by destruct (h (SessionLocal t sc)) as [[e|a] db].
Qed.

(** The rows of the table, each loaded once. *)
Lemma elem_of_rows (t : Table) p :
  p ∈ uncurry PostModel.load <$> map_to_list t ↔
  t !! PostModel.id p = Some (PostModel.columns p).
Proof.
  rewrite list_elem_of_fmap. split.
  - intros ([k [ti co]] & -> & Hin). by apply elem_of_map_to_list in Hin.
  - intros Hin. exists (PostModel.id p, PostModel.columns p). split.
    + by destruct p.
    + by apply elem_of_map_to_list.
Qed.

Lemma NoDup_rows (t : Table) :
  NoDup (uncurry PostModel.load <$> map_to_list t).
Proof.
  apply NoDup_fmap_2; [|apply NoDup_map_to_list].
  intros [k [ti co]] [k' [ti' co']] [= -> -> ->]. done.
Qed.

(** A request that is not answered with a store failure leaves the
    table as its exchange tells. *)
Lemma served_entered req sc t resp t' :
  get_db (app gen_id req) sc t = (resp, t') →
  store_failure resp = false →
  t' = entered t (req, resp).
Proof.
  destruct req as [| |post_id|post|post_id post|post_id]; simpl.
  - by intros [= <- <-].
  - rewrite get_db_fmap. unfold get_db, SessionLocal.
    rewrite get_posts_eq. simpl. intros [= <- <-].
    by destruct (outcome 0 sc).
  - rewrite get_db_fmap. unfold get_db, SessionLocal.
    rewrite get_post_eq. simpl. intros [= <- <-].
    destruct (outcome 0 sc); [done|]. by destruct (t !! post_id).
  - rewrite get_db_fmap. unfold get_db. rewrite create_post_eq.
    destruct (outcome 0 sc); [by intros [= <- <-]|].
    destruct (t !! gen_id t); [by intros [= <- <-]|].
    simpl. destruct (outcome 1 sc); by intros [= <- <-].
  - rewrite get_db_fmap. unfold get_db. rewrite update_post_eq.
    destruct (outcome 0 sc); [by intros [= <- <-]|].
    destruct (t !! post_id); [|by intros [= <- <-]].
    destruct (outcome 1 sc); [by intros [= <- <-]|].
    simpl. destruct (outcome 2 sc); by intros [= <- <-].
  - rewrite get_db_fmap. unfold get_db. rewrite delete_post_eq.
    destruct (outcome 0 sc); [by intros [= <- <-]|].
    destruct (t !! post_id); [|by intros [= <- <-]].
    destruct (outcome 1 sc); by intros [= <- <-].
Qed.

Lemma serve_ledger history initial log t :
  serve gen_id history initial = (log, t) →
  no_store_failure log = true →
  t = ledger initial log.
Proof.
  revert initial log.
  induction history as [|[req sc] history IH]; intros initial log; simpl.
  - by intros [= <- <-].
  - destruct (get_db (app gen_id req) sc initial) as [resp t1] eqn:Hreq.
    destruct (serve gen_id history t1) as [log' t2] eqn:Hrest.
    intros [= <- <-] Hlog.
    change (ledger initial ((req, resp) :: log'))
      with (ledger (entered initial (req, resp)) log').
    unfold no_store_failure in Hlog. simpl in Hlog.
    apply andb_prop in Hlog as [Hresp Hlog].
    apply negb_true_iff in Hresp.
    rewrite <- (served_entered _ _ _ _ _ Hreq Hresp).
    by apply IH.
Qed.

(** C2.  Take any table to begin with and any history of requests, none
    of them answered with a store failure.  List (its query being
    answered by the database) then returns each post once, and a post is
    returned exactly when the exchanges tell it was there or created and
    has not been deleted since, with the title and content it was last
    given; the order of the list is not part of the statement.  With
    the empty history this says that List returns the rows of any table
    whatever. *)
Theorem get_posts_created_not_deleted history initial log t sc :
  serve gen_id history initial = (log, t) →
  no_store_failure log = true →
  outcome 0 sc = None →
  ∃ posts,
    get_db get_posts sc t = (inr posts, t) ∧
    NoDup posts ∧
    ∀ p, p ∈ posts ↔
         ledger initial log !! PostModel.id p = Some (PostModel.columns p).
Proof.
  intros Hserve Hlog Hsc.
  exists (uncurry PostModel.load <$> map_to_list t).
  unfold get_db, SessionLocal. rewrite get_posts_eq, Hsc.
  split; [done|]. split; [apply NoDup_rows|].
  intros p. rewrite <- (serve_ledger _ _ _ _ Hserve Hlog).
  apply elem_of_rows.
Qed.

(** ** Store failures of the mutating requests *)

Lemma fmap_run {A B : Type} (f : A → B) (h : M A) db :
  (f <$> h) db =
    (match (h db).1 with
     | inl e => inl e
     | inr a => inr (f a)
     end, (h db).2).
Proof.
  unfold fmap, M_fmap, mbind, M_bind. by destruct (h db) as [[e|a] db'].
Qed.

Lemma fails_at_0 n msg sc :
  fails_at (S n) msg sc → outcome 0 sc = None.
Proof. intros [_ H]. apply H. lia. Qed.

Lemma fails_at_1 n msg sc :
  fails_at (S (S n)) msg sc → outcome 1 sc = None.
Proof. intros [_ H]. apply H. lia. Qed.

(** C7, as the code has it.  Let a mutating request be served on table
    [t], and let the persistence layer raise [msg] on its [n]-th
    statement.  Then the request is answered 500 with [msg] and nothing
    is left pending in the session.  The table is as it was before the
    request when the statement is the lookup or the commit, which is
    every case of Delete; when it is the refresh that follows the commit
    of Create or Update, the table holds the committed write. *)
Theorem store_failure_rolls_back req t sc n msg r db' :
  mutating req = true →
  raises gen_id req t sc n msg →
  app gen_id req (SessionLocal t sc) = (r, db') →
  r = inl (HTTPException 500 msg) ∧
  pending db' = [] ∧
  store db' =
    if decide (refresh_index req = Some n) then written gen_id req t else t.
Proof.
  intros Hmut Hraises.
  destruct req as [| |post_id|post|post_id post|post_id]; try done;
    simpl; rewrite fmap_run.
  - rewrite create_post_eq.
    destruct Hraises as [[Hn Hlt]|(? & _ & -> & H0 & [c Hc] & ->)].
    + simpl in Hlt. destruct n as [|[|n]].
      * destruct Hn as [-> _]. by intros [= <- <-].
      * rewrite (fails_at_0 _ _ _ Hn).
        destruct (t !! gen_id t); [lia|].
        destruct Hn as [-> _]. by intros [= <- <-].
      * destruct (t !! gen_id t); lia.
    + rewrite H0, Hc. by intros [= <- <-].
  - rewrite update_post_eq.
    destruct Hraises as [[Hn Hlt]|(? & [=] & _)].
    simpl in Hlt. destruct n as [|[|[|n]]].
    + destruct Hn as [-> _]. by intros [= <- <-].
    + rewrite (fails_at_0 _ _ _ Hn).
      destruct (t !! post_id); [|lia].
      destruct Hn as [-> _]. by intros [= <- <-].
    + rewrite (fails_at_0 _ _ _ Hn), (fails_at_1 _ _ _ Hn).
      destruct (t !! post_id); [|lia].
      destruct Hn as [-> _]. by intros [= <- <-].
    + destruct (t !! post_id); lia.
  - rewrite delete_post_eq.
    destruct Hraises as [[Hn Hlt]|(? & [=] & _)].
    simpl in Hlt. destruct n as [|[|n]].
    + destruct Hn as [-> _]. by intros [= <- <-].
    + rewrite (fails_at_0 _ _ _ Hn).
      destruct (t !! post_id); [|lia].
      destruct Hn as [-> _]. by intros [= <- <-].
    + destruct (t !! post_id); lia.
Qed.

(** Conversely, a mutating request is answered 500 only when the
    persistence layer raised, and with the message it raised. *)
Lemma store_failure_raised req t sc msg db' :
  mutating req = true →
  app gen_id req (SessionLocal t sc) = (inl (HTTPException 500 msg), db') →
  ∃ n, raises gen_id req t sc n msg.
Proof.
  intros Hmut.
  destruct req as [| |post_id|post|post_id post|post_id]; try done;
    simpl; rewrite fmap_run; unfold raises, fails_at; simpl.
  - rewrite create_post_eq.
    destruct (outcome 0 sc) as [m|] eqn:H0.
    { intros [= -> <-]. exists 0%nat. left. repeat split; [done|lia|].
      destruct (t !! gen_id t); lia. }
    destruct (t !! gen_id t) as [c|] eqn:Hc.
    { intros [= <- <-]. exists 0%nat. right. by eauto 10. }
    simpl. destruct (outcome 1 sc) as [m|] eqn:H1; [|done].
    intros [= -> <-]. exists 1%nat. left. repeat split; [done| |lia].
    intros i Hi. by replace i with 0%nat by lia.
  - rewrite update_post_eq.
    destruct (outcome 0 sc) as [m|] eqn:H0.
    { intros [= -> <-]. exists 0%nat. left. repeat split; [done|lia|].
      destruct (t !! post_id); lia. }
    destruct (t !! post_id) as [c|] eqn:Hc; [|done].
    destruct (outcome 1 sc) as [m|] eqn:H1.
    { intros [= -> <-]. exists 1%nat. left. repeat split; [done| |lia].
      intros i Hi. by replace i with 0%nat by lia. }
    simpl. destruct (outcome 2 sc) as [m|] eqn:H2; [|done].
    intros [= -> <-]. exists 2%nat. left. repeat split; [done| |lia].
    intros i Hi. destruct i as [|[|i]]; [done|done|lia].
  - rewrite delete_post_eq.
    destruct (outcome 0 sc) as [m|] eqn:H0.
    { intros [= -> <-]. exists 0%nat. left. repeat split; [done|lia|].
      destruct (t !! post_id); lia. }
    destruct (t !! post_id) as [c|] eqn:Hc; [|done].
    destruct (outcome 1 sc) as [m|] eqn:H1; [|done].
    intros [= -> <-]. exists 1%nat. left. repeat split; [done| |lia].
    intros i Hi. by replace i with 0%nat by lia.
Qed.

End Properties.

(** * The serial key generator *)

Lemma serial_id_above (t : Table) k :
  is_Some (t !! k) → (k < serial_id t)%Z.
Proof.
  intros Hk. unfold serial_id.
  cut (k ≤ map_fold (λ k _ m, Z.max k m) 0 t)%Z; [lia|].
  revert t Hk. apply (map_fold_weak_ind
           (λ r (t : Table), is_Some (t !! k) → (k ≤ r)%Z)).
  - by intros [? ?].
  - intros i x t r Hi IH. rewrite lookup_insert.
    case_decide as Hik; [lia|]. intros H. specialize (IH H). lia.
Qed.

Lemma serial_id_fresh (t : Table) : t !! serial_id t = None.
Proof.
  destruct (t !! serial_id t) eqn:H; [|done].
  assert (serial_id t < serial_id t)%Z by (apply serial_id_above; eauto). lia.
Qed.

(** With serial keys, Create succeeds whenever its two statements do. *)
Lemma create_post_serial post sc t :
  outcome 0 sc = None →
  outcome 1 sc = None →
  get_db (create_post serial_id post) sc t =
    (inr (PostModel.mk (serial_id t) (Post.title post) (Post.content post)),
     <[serial_id t := (Post.title post, Post.content post)]> t).
Proof.
  intros H0 H1. unfold get_db.
  by rewrite create_post_eq, H0, serial_id_fresh, H1.
Qed.

(** * Instances *)

Example spec_history_served :
  serve serial_id spec_history ∅ =
    ([ (PostPosts (Post.mk "A" "B"), inr (Row (PostModel.mk 1 "A" "B")));
       (GetPost 1, inr (Row (PostModel.mk 1 "A" "B")));
       (DeletePost 1, inr (Row (PostModel.mk 1 "A" "B")));
       (GetPost 1, inl (HTTPException 404 "Post no encontrado")) ], ∅).
Proof. reflexivity. Qed.

Lemma create_then_get_witness :
  ∃ p t',
    get_db (create_post serial_id (Post.mk "A" "B")) [] ∅ = (inr p, t') ∧
    get_db (get_post (PostModel.id p)) [] t' = (inr p, t') ∧
    PostModel.title p = Post.title (Post.mk "A" "B") ∧
    PostModel.content p = Post.content (Post.mk "A" "B").
Proof.
  apply (create_then_get serial_id (Post.mk "A" "B") [] [] ∅); reflexivity.
Defined.

Lemma get_posts_created_not_deleted_witness :
  let served := serve serial_id sample_history ∅ in
  ∃ posts,
    get_db get_posts [] served.2 = (inr posts, served.2) ∧
    NoDup posts ∧
    ∀ p, p ∈ posts ↔
         ledger ∅ served.1 !! PostModel.id p = Some (PostModel.columns p).
Proof.
  apply (get_posts_created_not_deleted serial_id sample_history ∅);
    reflexivity.
Defined.

Lemma update_absent_witness :
  let t : Table := {[1 := ("C", "D")]} in
  (get_db (update_post serial_id 5 (Post.mk "A" "B")) [] t).2 = t ∧
  (outcome 0 [] = None →
   get_db (update_post serial_id 5 (Post.mk "A" "B")) [] t =
     (inl (HTTPException 404 not_found), t)).
Proof. apply update_absent; reflexivity. Defined.

Lemma delete_then_get_witness :
  ∃ p t',
    get_db (delete_post serial_id 1) [] {[1 := ("A", "B")]} = (inr p, t') ∧
    get_db (get_post 1) [] t' = (inl (HTTPException 404 not_found), t').
Proof.
  apply delete_then_get; [by exists ("A", "B")|reflexivity..].
Defined.

Lemma delete_returns_prior_witness :
  get_db (delete_post serial_id 1) [] {[1 := ("A", "B"); 2 := ("C", "D")]} =
    (inr (PostModel.mk 1 "A" "B"),
     delete 1 ({[1 := ("A", "B"); 2 := ("C", "D")]} : Table)).
Proof. apply delete_returns_prior; reflexivity. Defined.


Lemma store_failure_rolls_back_witness :
  let t : Table := {[1 := ("A", "B")]} in
  let req := PutPost 1 (Post.mk "C" "D") in
  let run :=
    app serial_id req (SessionLocal t [None; Some "deadlock detected"]) in
  run.1 = inl (HTTPException 500 "deadlock detected") ∧
  pending run.2 = [] ∧
  store run.2 =
    if decide (refresh_index req = Some 1%nat)
    then written serial_id req t else t.
Proof.
  apply (store_failure_rolls_back serial_id
           (PutPost 1 (Post.mk "C" "D")) {[1 := ("A", "B")]}
           [None; Some "deadlock detected"] 1 "deadlock detected").
  - reflexivity.
  - left. split; [split; [reflexivity|]|vm_compute; lia].
    intros i Hi. destruct i; [reflexivity|lia].
  - reflexivity.
Defined.

(** C7 as it is stated fails: a Create whose commit goes through and
    whose refresh fails is answered 500 with the message of the failure,
    nothing is left pending, and the row is in the table, which was empty
    before. *)
Lemma create_refresh_failure_keeps_row :
  create_post serial_id (Post.mk "A" "B")
    (SessionLocal ∅ [None; Some "connection lost"]) =
    (inl (HTTPException 500 "connection lost"),
     mkSession {[1 := ("A", "B")]} [] []) ∧
  ({[1 := ("A", "B")]} : Table) ≠ ∅.
Proof.
  split; [reflexivity|].
  intros H. apply (f_equal (λ t : Table, t !! 1)) in H. discriminate H.
Qed.

Lemma update_frame_witness :
  let t : Table := {[1 := ("A", "B"); 2 := ("C", "D")]} in
  let p := PostModel.mk 1 "A2" "B2" in
  let t' : Table := {[1 := ("A2", "B2"); 2 := ("C", "D")]} in
  PostModel.id p = 1 ∧
  t' !! 1 = Some ("A2", "B2") ∧
  dom t' = dom t ∧
  ∀ k, k ≠ 1 → t' !! k = t !! k.
Proof.
  apply (update_frame serial_id 1 (Post.mk "A2" "B2") []); reflexivity.
Defined.

Lemma create_id_generated_witness :
  let t : Table := {[1 := ("A", "B")]} in
  get_db (create_post serial_id (Post.mk "C" "D")) [] t =
    (inr (PostModel.mk 2 "C" "D"), {[1 := ("A", "B"); 2 := ("C", "D")]}) ∧
  ∀ post' sc' p' t',
    get_db (create_post serial_id post') sc' t = (inr p', t') →
    PostModel.id p' = 2 ∧
    t' = <[2 := (Post.title post', Post.content post')]> t.
Proof.
  exact (create_id_generated serial_id (Post.mk "C" "D") []
           {[1 := ("A", "B")]} eq_refl eq_refl eq_refl).
Defined.

(** * Further properties of the handlers *)

Section Handlers.

Variable gen_id : Table → Z.

Lemma get_db_delete_post_inv post_id t sc p t' :
  get_db (delete_post gen_id post_id) sc t = (inr p, t') →
  ∃ c, t !! post_id = Some c ∧ p = PostModel.load post_id c ∧
       t' = delete post_id t.
Proof.
  unfold get_db. rewrite delete_post_eq.
  destruct (outcome 0 sc); [done|].
  destruct (t !! post_id) as [c|]; [|done].
  destruct (outcome 1 sc); [done|].
  intros [= <- <-]. eauto.
Qed.

(** ** When the mutating handlers succeed *)

(** X1.  Create answers with a post exactly when its commit and its
    refresh are answered by the database and the generated key is free;
    the post then has the generated key and the title and content of the
    request, and the table is the old one with that row added. *)
Theorem create_post_succeeds post sc t p t' :
  get_db (create_post gen_id post) sc t = (inr p, t') ↔
  outcome 0 sc = None ∧ outcome 1 sc = None ∧ t !! gen_id t = None ∧
  p = PostModel.mk (gen_id t) (Post.title post) (Post.content post) ∧
  t' = <[gen_id t := (Post.title post, Post.content post)]> t.
Proof.
  split.
  - intros H. pose proof (get_db_create_post_inv _ _ _ _ _ _ H) as (? & ? & ?).
    revert H. unfold get_db. rewrite create_post_eq.
    destruct (outcome 0 sc); [done|].
    destruct (t !! gen_id t); [done|].
    simpl. by destruct (outcome 1 sc).
  - intros (H0 & H1 & Hk & -> & ->). unfold get_db.
    by rewrite create_post_eq, H0, Hk, H1.
Qed.

(** X2.  Update answers with a post exactly when a row has the id and the
    lookup, the commit and the refresh are answered by the database; the
    post then has the id of the path and the title and content of the
    request, and the table is the old one with that row replaced. *)
Theorem update_post_succeeds post_id post sc t p t' :
  get_db (update_post gen_id post_id post) sc t = (inr p, t') ↔
  outcome 0 sc = None ∧ outcome 1 sc = None ∧ outcome 2 sc = None ∧
  is_Some (t !! post_id) ∧
  p = PostModel.mk post_id (Post.title post) (Post.content post) ∧
  t' = <[post_id := (Post.title post, Post.content post)]> t.
Proof.
  split.
  - intros H. pose proof (get_db_update_post_inv _ _ _ _ _ _ _ H) as (? & ? & ?).
    revert H. unfold get_db. rewrite update_post_eq.
    destruct (outcome 0 sc); [done|].
    destruct (t !! post_id); [|done].
    destruct (outcome 1 sc); [done|].
    simpl. by destruct (outcome 2 sc).
  - intros (H0 & H1 & H2 & [c Hk] & -> & ->). unfold get_db.
    by rewrite update_post_eq, H0, Hk, H1, H2.
Qed.

(** X3.  Delete answers with a post exactly when the lookup and the commit
    are answered by the database and the table holds that very post under
    the id of the path; the table is then the old one without that row. *)
Theorem delete_post_succeeds post_id sc t p t' :
  get_db (delete_post gen_id post_id) sc t = (inr p, t') ↔
  outcome 0 sc = None ∧ outcome 1 sc = None ∧
  PostModel.id p = post_id ∧ t !! post_id = Some (PostModel.columns p) ∧
  t' = delete post_id t.
Proof.
  split.
  - intros H. pose proof (get_db_delete_post_inv _ _ _ _ _ H) as (c & Hc & -> & ->).
    revert H. unfold get_db. rewrite delete_post_eq.
    destruct (outcome 0 sc); [done|]. rewrite Hc.
    destruct (outcome 1 sc); [done|]. by destruct c.
  - intros (H0 & H1 & <- & Hk & ->).
    rewrite (get_db_delete_post _ _ _ _ _ Hk H0 H1). by destruct p.
Qed.

(** ** How the handlers compose *)

(** X4.  After a successful Update, Get-by-id on the same id (its lookup
    being answered) returns the post Update answered with, carrying the
    title and content of the update. *)
Theorem update_then_get post_id post sc sc' t p t' :
  get_db (update_post gen_id post_id post) sc t = (inr p, t') →
  outcome 0 sc' = None →
  get_db (get_post post_id) sc' t' = (inr p, t') ∧
  PostModel.title p = Post.title post ∧
  PostModel.content p = Post.content post.
Proof.
  intros (_ & -> & ->)%get_db_update_post_inv Hsc'.
  rewrite get_db_get_post by done. by rewrite lookup_insert_eq.
Qed.

(** X5.  Deleting the post a Create has just answered with (no statement
    of the delete failing) returns that post and puts the table back as
    it was before the create. *)
Theorem create_then_delete post sc sc' t p t' :
  get_db (create_post gen_id post) sc t = (inr p, t') →
  outcome 0 sc' = None →
  outcome 1 sc' = None →
  get_db (delete_post gen_id (PostModel.id p)) sc' t' = (inr p, t).
Proof.
  intros (Hfree & -> & ->)%get_db_create_post_inv H0 H1. simpl.
  rewrite (get_db_delete_post _ _ _ _
             (Post.title post, Post.content post)) by
    (by rewrite ?lookup_insert_eq).
  by rewrite delete_insert_eq, delete_id.
Qed.

(** X6.  Delete on an id that no post has leaves the table as it was and
    answers 404 with the message [not_found] as soon as its lookup is
    answered by the database. *)
Theorem delete_absent post_id sc t :
  t !! post_id = None →
  (get_db (delete_post gen_id post_id) sc t).2 = t ∧
  (outcome 0 sc = None →
   get_db (delete_post gen_id post_id) sc t =
     (inl (HTTPException 404 not_found), t)).
Proof.
  intros Ht. unfold get_db. rewrite delete_post_eq, Ht.
  by destruct (outcome 0 sc).
Qed.

(** X7.  A second Delete on an id just deleted answers 404 (its lookup
    being answered) and changes nothing. *)
Theorem delete_twice post_id sc sc' t p t' :
  get_db (delete_post gen_id post_id) sc t = (inr p, t') →
  outcome 0 sc' = None →
  get_db (delete_post gen_id post_id) sc' t' =
    (inl (HTTPException 404 not_found), t').
Proof.
  intros (c & _ & _ & ->)%get_db_delete_post_inv Hsc'.
  unfold get_db. by rewrite delete_post_eq, Hsc', lookup_delete_eq.
Qed.

(** X8.  Of two Updates of the same post that both succeed, the second
    decides: the table and the answer are what the second update alone
    gives on the first table, and repeating an update changes nothing. *)
Theorem update_twice post_id post1 post2 sc1 sc2 t p1 t1 p2 t2 :
  get_db (update_post gen_id post_id post1) sc1 t = (inr p1, t1) →
  get_db (update_post gen_id post_id post2) sc2 t1 = (inr p2, t2) →
  get_db (update_post gen_id post_id post2) sc2 t = (inr p2, t2) ∧
  (post1 = post2 → p2 = p1 ∧ t2 = t1).
Proof.
  intros ([c Hin] & -> & ->)%get_db_update_post_inv H2.
  pose proof (get_db_update_post_inv _ _ _ _ _ _ _ H2) as (_ & -> & ->).
  rewrite insert_insert_eq. split; [|by intros ->].
  revert H2. unfold get_db. rewrite !update_post_eq, lookup_insert_eq, Hin.
  destruct (outcome 0 sc2); [done|].
  destruct (outcome 1 sc2); [done|].
  simpl. rewrite insert_insert_eq. by destruct (outcome 2 sc2).
Qed.

(** X9.  Two Creates that succeed one after the other answer with
    different ids, and both posts are in the table afterwards. *)
Theorem creates_get_distinct_ids post1 post2 sc1 sc2 t p1 t1 p2 t2 :
  get_db (create_post gen_id post1) sc1 t = (inr p1, t1) →
  get_db (create_post gen_id post2) sc2 t1 = (inr p2, t2) →
  PostModel.id p1 ≠ PostModel.id p2 ∧
  t2 !! PostModel.id p1 = Some (PostModel.columns p1) ∧
  t2 !! PostModel.id p2 = Some (PostModel.columns p2).
Proof.
  intros (_ & -> & ->)%get_db_create_post_inv.
  intros (Hfree & -> & ->)%get_db_create_post_inv. simpl.
  set (t1 := <[gen_id t := _]> t) in *.
  assert (gen_id t ≠ gen_id t1) as Hne.
  { intros Heq. rewrite <- Heq in Hfree. unfold t1 in Hfree.
    by rewrite lookup_insert_eq in Hfree. }
  split; [done|]. split.
  - rewrite lookup_insert_ne by done. unfold t1. by rewrite lookup_insert_eq.
  - by rewrite lookup_insert_eq.
Qed.

End Handlers.

(** * What a request can and cannot do *)

Section Requests.

Variable gen_id : Table → Z.

(** X10.  Whatever the database answers, a request leaves the table
    either as it was or with exactly its own write applied, and every
    row other than the one it writes is as it was. *)
Theorem request_writes_its_row_only req sc t :
  ((get_db (app gen_id req) sc t).2 = t ∨
   (get_db (app gen_id req) sc t).2 = written gen_id req t) ∧
  ∀ k, target gen_id req t ≠ Some k →
       (get_db (app gen_id req) sc t).2 !! k = t !! k.
Proof.
  assert (∀ k, target gen_id req t ≠ Some k →
               written gen_id req t !! k = t !! k) as Hframe.
  { intros k Hk. destruct req; simpl in *; try done.
    - rewrite lookup_insert_ne; [done|congruence].
    - rewrite lookup_insert_ne; [done|congruence].
    - rewrite lookup_delete_ne; [done|congruence]. }
  cut ((get_db (app gen_id req) sc t).2 = t ∨
       (get_db (app gen_id req) sc t).2 = written gen_id req t).
  { intros [->| ->]; split; auto. }
  unfold get_db.
  destruct req as [| |post_id|post|post_id post|post_id]; simpl;
    rewrite ?fmap_run; unfold SessionLocal;
    rewrite ?get_posts_eq, ?get_post_eq; fold (SessionLocal t sc);
    rewrite ?create_post_eq, ?update_post_eq, ?delete_post_eq; auto.
  - destruct (outcome 0 sc); auto. destruct (t !! gen_id t); auto.
  - destruct (outcome 0 sc); auto. destruct (t !! post_id); auto.
    destruct (outcome 1 sc); auto.
  - destruct (outcome 0 sc); auto. destruct (t !! post_id); auto.
    destruct (outcome 1 sc); auto.
Qed.

(** X11.  Create never changes or removes a post that is there: whatever
    the database answers, every row of the table before is in the table
    after, and at most one row is added. *)
Theorem create_keeps_existing_rows post sc t :
  t ⊆ (get_db (create_post gen_id post) sc t).2 ∧
  (size (get_db (create_post gen_id post) sc t).2 ≤ S (size t))%nat.
Proof.
  unfold get_db. rewrite create_post_eq.
  destruct (outcome 0 sc); [split; [done|simpl; lia]|].
  destruct (t !! gen_id t) eqn:Hk; [split; [done|simpl; lia]|].
  simpl. split; [by apply insert_subseteq|].
  by rewrite map_size_insert_None.
Qed.

(** X12.  Update never creates or removes a post: whatever the database
    answers and whether the post exists or not, the ids in use after are
    the ids in use before. *)
Theorem update_keeps_ids post_id post sc t :
  dom (get_db (update_post gen_id post_id post) sc t).2 = dom t.
Proof.
  unfold get_db. rewrite update_post_eq.
  destruct (outcome 0 sc); [done|].
  destruct (t !! post_id) eqn:Hk; [|done].
  destruct (outcome 1 sc); [done|]. simpl.
  rewrite dom_insert_L. apply subseteq_union_1_L, singleton_subseteq_l.
  by apply elem_of_dom.
Qed.

(** X14.  No request leaves a write pending in its session: what it
    registered is committed or rolled back by the time it answers, on
    the success, the not-found and the failure path alike. *)
Theorem nothing_left_pending req sc t :
  pending (app gen_id req (SessionLocal t sc)).2 = [].
Proof.
  destruct req as [| |post_id|post|post_id post|post_id]; simpl;
    rewrite ?fmap_run; unfold SessionLocal;
    rewrite ?get_posts_eq, ?get_post_eq; fold (SessionLocal t sc);
    rewrite ?create_post_eq, ?update_post_eq, ?delete_post_eq; simpl.
  - done.
  - done.
  - done.
  - destruct (outcome 0 sc); [done|]. by destruct (t !! gen_id t).
  - destruct (outcome 0 sc); [done|]. destruct (t !! post_id); [|done].
    by destruct (outcome 1 sc).
  - destruct (outcome 0 sc); [done|]. destruct (t !! post_id); [|done].
    by destruct (outcome 1 sc).
Qed.

End Requests.

(** * Reads *)

Section Reads.

Variable gen_id : Table → Z.

(** X15.  List and Get-by-id are answered 500 with a message exactly when
    their query fails with that message. *)
Theorem read_store_failure post_id sc t msg :
  ((get_db get_posts sc t).1 = inl (HTTPException 500 msg)
     ↔ outcome 0 sc = Some msg) ∧
  ((get_db (get_post post_id) sc t).1 = inl (HTTPException 500 msg)
     ↔ outcome 0 sc = Some msg).
Proof.
  unfold get_db, SessionLocal. rewrite get_posts_eq, get_post_eq. simpl.
  destruct (outcome 0 sc) as [m|].
  - split; split; congruence.
  - destruct (t !! post_id); split; split; done.
Qed.

(** X16.  Get-by-id answers with a post exactly when its lookup is
    answered by the database and the table holds, under the id of the
    path, a row with the title and content of that post. *)
Theorem get_post_returns_row post_id sc t p :
  (get_db (get_post post_id) sc t).1 = inr p ↔
  outcome 0 sc = None ∧ PostModel.id p = post_id ∧
  t !! post_id = Some (PostModel.columns p).
Proof.
  unfold get_db, SessionLocal. rewrite get_post_eq. simpl.
  destruct (outcome 0 sc) as [m|]; [by split; [|intros [? _]]|].
  destruct (t !! post_id) as [[ti co]|].
  - split.
    + by intros [= <-].
    + intros (_ & <- & [= -> ->]). by destruct p.
  - by split; [|intros (_ & _ & ?)].
Qed.

(** X17.  List answers with one post per row of the table: as many posts
    as there are rows, no two of them with the same id, their ids being
    the ids in use. *)
Theorem get_posts_one_per_row sc t posts :
  (get_db get_posts sc t).1 = inr posts →
  length posts = size t ∧
  NoDup (PostModel.id <$> posts) ∧
  ∀ k, k ∈ PostModel.id <$> posts ↔ is_Some (t !! k).
Proof.
  unfold get_db, SessionLocal. rewrite get_posts_eq. simpl.
  destruct (outcome 0 sc); [done|]. intros [= <-].
  assert (PostModel.id <$> (uncurry PostModel.load <$> map_to_list t)
          = (map_to_list t).*1) as ->.
  { rewrite <- list_fmap_compose. apply list_fmap_ext. by intros _ [k c] _. }
  split; [by rewrite length_fmap, length_map_to_list|].
  split; [apply NoDup_fst_map_to_list|].
  intros k. rewrite list_elem_of_fmap. split.
  - intros ([k' c] & -> & Hin%elem_of_map_to_list). eauto.
  - intros [c Hc]. exists (k, c). by rewrite elem_of_map_to_list.
Qed.

(** X18.  After a successful Create, List (its query being answered)
    returns the created post and, beside it, exactly the posts that were
    in the table before. *)
Theorem create_then_get_posts post sc sc' t p t' :
  get_db (create_post gen_id post) sc t = (inr p, t') →
  outcome 0 sc' = None →
  ∃ posts,
    get_db get_posts sc' t' = (inr posts, t') ∧
    length posts = S (size t) ∧
    ∀ q, q ∈ posts ↔
         q = p ∨ t !! PostModel.id q = Some (PostModel.columns q).
Proof.
  intros (Hfree & -> & ->)%get_db_create_post_inv Hsc'.
  eexists. unfold get_db, SessionLocal. rewrite get_posts_eq, Hsc'.
  split; [done|]. split.
  - by rewrite length_fmap, length_map_to_list, map_size_insert_None.
  - intros q. rewrite elem_of_rows, lookup_insert.
    case_decide as Hk; split.
    + intros [= Hc]. left. destruct q; simpl in *. unfold PostModel.columns in Hc.
      simpl in Hc. congruence.
    + intros [->|Hq]; [done|]. rewrite <- Hk in Hq. congruence.
    + auto.
    + intros [->|Hq]; [done|]. done.
Qed.

(** X19.  After a successful Delete, List (its query being answered)
    returns exactly the posts that were in the table before, less the
    deleted one. *)
Theorem delete_then_get_posts post_id sc sc' t p t' :
  get_db (delete_post gen_id post_id) sc t = (inr p, t') →
  outcome 0 sc' = None →
  ∃ posts,
    get_db get_posts sc' t' = (inr posts, t') ∧
    S (length posts) = size t ∧
    ∀ q, q ∈ posts ↔
         PostModel.id q ≠ post_id ∧
         t !! PostModel.id q = Some (PostModel.columns q).
Proof.
  intros (c & Hc & -> & ->)%get_db_delete_post_inv Hsc'.
  eexists. unfold get_db, SessionLocal. rewrite get_posts_eq, Hsc'.
  split; [done|]. split.
  - rewrite length_fmap, length_map_to_list.
    rewrite map_size_delete, Hc.
    assert (size t ≠ 0%nat); [|lia].
    intros ->%map_size_empty_inv. by rewrite lookup_empty in Hc.
  - intros q. rewrite elem_of_rows, lookup_delete.
    case_decide as Hk; split; try done.
    + intros [? _]. done.
    + by intros [_ ?].
Qed.

End Reads.

(** * Further instances *)

Lemma update_then_get_witness :
  let t' : Table := {[1 := ("A2", "B2"); 2 := ("C", "D")]} in
  let p := PostModel.mk 1 "A2" "B2" in
  let post := Post.mk "A2" "B2" in
  get_db (get_post 1) [] t' = (inr p, t') ∧
  PostModel.title p = Post.title post ∧
  PostModel.content p = Post.content post.
Proof.
  apply (update_then_get serial_id 1 (Post.mk "A2" "B2") [] []
           {[1 := ("A", "B"); 2 := ("C", "D")]}); reflexivity.
Defined.

Lemma create_then_delete_witness :
  let t : Table := {[1 := ("A", "B")]} in
  let p := PostModel.mk 2 "C" "D" in
  get_db (delete_post serial_id (PostModel.id p)) []
    (<[2 := ("C", "D")]> t) = (inr p, t).
Proof.
  apply (create_then_delete serial_id (Post.mk "C" "D") [] []
           {[1 := ("A", "B")]}); reflexivity.
Defined.

Lemma delete_absent_witness :
  let t : Table := {[1 := ("A", "B")]} in
  (get_db (delete_post serial_id 3) [None; Some "timeout"] t).2 = t ∧
  (outcome 0 [None; Some "timeout"] = None →
   get_db (delete_post serial_id 3) [None; Some "timeout"] t =
     (inl (HTTPException 404 not_found), t)).
Proof. apply delete_absent; reflexivity. Defined.

Lemma delete_twice_witness :
  let t' : Table := {[2 := ("C", "D")]} in
  get_db (delete_post serial_id 1) [] t' =
    (inl (HTTPException 404 not_found), t').
Proof.
  apply (delete_twice serial_id 1 [] []
           {[1 := ("A", "B"); 2 := ("C", "D")]} (PostModel.mk 1 "A" "B"));
    reflexivity.
Defined.

Lemma update_twice_witness :
  let t : Table := {[1 := ("A", "B")]} in
  let post1 := Post.mk "A1" "B1" in
  let post2 := Post.mk "A2" "B2" in
  let p1 := PostModel.mk 1 "A1" "B1" in
  let p2 := PostModel.mk 1 "A2" "B2" in
  let t1 : Table := {[1 := ("A1", "B1")]} in
  let t2 : Table := {[1 := ("A2", "B2")]} in
  get_db (update_post serial_id 1 post2) [] t = (inr p2, t2) ∧
  (post1 = post2 → p2 = p1 ∧ t2 = t1).
Proof.
  apply (update_twice serial_id 1 (Post.mk "A1" "B1") (Post.mk "A2" "B2")
           [] [] {[1 := ("A", "B")]}); reflexivity.
Defined.

Lemma creates_get_distinct_ids_witness :
  let p1 := PostModel.mk 1 "A" "B" in
  let p2 := PostModel.mk 2 "A" "B" in
  let t2 : Table := {[1 := ("A", "B"); 2 := ("A", "B")]} in
  PostModel.id p1 ≠ PostModel.id p2 ∧
  t2 !! PostModel.id p1 = Some (PostModel.columns p1) ∧
  t2 !! PostModel.id p2 = Some (PostModel.columns p2).
Proof.
  apply (creates_get_distinct_ids serial_id (Post.mk "A" "B")
           (Post.mk "A" "B") [] [] ∅ _ {[1 := ("A", "B")]});
    reflexivity.
Defined.

Lemma get_posts_one_per_row_witness :
  let t : Table := {[1 := ("A", "B"); 4 := ("C", "D")]} in
  let posts :=
    match (get_db get_posts [] t).1 with inr posts => posts | inl _ => [] end
  in
  length posts = size t ∧
  NoDup (PostModel.id <$> posts) ∧
  ∀ k, k ∈ PostModel.id <$> posts ↔ is_Some (t !! k).
Proof.
  apply (get_posts_one_per_row [] {[1 := ("A", "B"); 4 := ("C", "D")]}).
  reflexivity.
Defined.

Lemma create_then_get_posts_witness :
  let t : Table := {[1 := ("A", "B")]} in
  let p := PostModel.mk 2 "C" "D" in
  let t' : Table := {[1 := ("A", "B"); 2 := ("C", "D")]} in
  ∃ posts,
    get_db get_posts [] t' = (inr posts, t') ∧
    length posts = S (size t) ∧
    ∀ q, q ∈ posts ↔
         q = p ∨ t !! PostModel.id q = Some (PostModel.columns q).
Proof.
  apply (create_then_get_posts serial_id (Post.mk "C" "D") [] []
           {[1 := ("A", "B")]}); reflexivity.
Defined.

Lemma delete_then_get_posts_witness :
  let t : Table := {[1 := ("A", "B"); 2 := ("C", "D")]} in
  let t' : Table := {[2 := ("C", "D")]} in
  ∃ posts,
    get_db get_posts [] t' = (inr posts, t') ∧
    S (length posts) = size t ∧
    ∀ q, q ∈ posts ↔
         PostModel.id q ≠ 1 ∧
         t !! PostModel.id q = Some (PostModel.columns q).
Proof.
  apply (delete_then_get_posts serial_id 1 [] []
           {[1 := ("A", "B"); 2 := ("C", "D")]} (PostModel.mk 1 "A" "B"));
    reflexivity.
Defined.
